(** * The pre-tool-use hook of the orange-hill-engineering plugin

    A shallow embedding of [hooks/pre_tool_use.py] and the properties of its
    decision procedure.  The hook decodes one JSON request, lets every tool
    other than the shell through, and tests a shell command against the table
    [DANGEROUS_RM_PATTERNS] with [re.search] under [re.IGNORECASE].

    Python strings are sequences of Unicode code points; they are modelled as
    lists of code points, so that the Unicode behaviour of [\s] and of
    case-insensitive matching is the one of the [re] module. *)

From Stdlib Require Import List NArith ZArith Ascii String Bool Lia.
Import ListNotations.

Set Implicit Arguments.

(** ** Python strings *)

Module Py.

Definition char := N.
Definition str := list char.

Definition ord (a : ascii) : char := N_of_ascii a.
Arguments ord a%_char.

(** An ASCII literal of the source as a Python string. *)
Definition u (s : string) : str := map ord (list_ascii_of_string s).

Fixpoint str_eqb (a b : str) : bool :=
  match a, b with
  | [], [] => true
  | x :: a', y :: b' => (x =? y)%N && str_eqb a' b'
  | _, _ => false
  end.

(** ASCII lower-casing of one code point, and of a string. *)
Definition ascii_lower (c : char) : char :=
  if (65 <=? c)%N && (c <=? 90)%N then (c + 32)%N else c.

Definition lower (s : str) : str := map ascii_lower s.

(** [str.isspace] on one code point: the characters [\s] matches in a
    Unicode pattern. *)
Definition isspace (c : char) : bool :=
  ((9 <=? c) && (c <=? 13) || (28 <=? c) && (c <=? 32)
   || (c =? 133) || (c =? 160) || (c =? 5760)
   || (8192 <=? c) && (c <=? 8202)
   || (c =? 8232) || (c =? 8233) || (c =? 8239) || (c =? 8287)
   || (c =? 12288))%N.

Definition is_ascii_alnum (c : char) : bool :=
  ((48 <=? c) && (c <=? 57) || (65 <=? c) && (c <=? 90)
   || (97 <=? c) && (c <=? 122))%N.

End Py.

Import Py.

(** ** The fragment of the [re] module the hook uses

    Every pattern of the table is a sequence of single-character atoms, each
    optionally followed by [+] or [*].  Atoms are ASCII literals (possibly
    escaped), the class [\s] and the wildcard [.]. *)

Module Re.

Inductive atom : Type :=
| Lit (c : char)
| Space
| Any.

Inductive quant : Type := Once | OneOrMore | ZeroOrMore.

Definition item : Type := (atom * quant)%type.
Definition regex : Type := list item.

Inductive token : Type :=
| TAtom (a : atom)
| TRepeat (q : quant).

(** Characters with a meaning of their own that lies outside the fragment:
    [[ { ( ) ? ^ $ |]. *)
Definition unsupported_special (c : char) : bool :=
  existsb (N.eqb c) (u "[{()?^$|").

(** Lexing of a pattern.  [None] stands for a pattern that is malformed or
    outside the fragment (groups, classes, alternation, anchors, escapes of
    letters and digits other than [\s], non-ASCII literals). *)
Fixpoint tokens (p : str) : option (list token) :=
  match p with
  | [] => Some []
  | c :: rest =>
      if (c =? ord "\")%N then
        match rest with
        | [] => None
        | e :: rest' =>
            if (e =? ord "s")%N then option_map (cons (TAtom Space)) (tokens rest')
            else if is_ascii_alnum e || (128 <=? e)%N then None
            else option_map (cons (TAtom (Lit e))) (tokens rest')
        end
      else if (c =? ord ".")%N then option_map (cons (TAtom Any)) (tokens rest)
      else if (c =? ord "+")%N then option_map (cons (TRepeat OneOrMore)) (tokens rest)
      else if (c =? ord "*")%N then option_map (cons (TRepeat ZeroOrMore)) (tokens rest)
      else if unsupported_special c || (128 <=? c)%N then None
      else option_map (cons (TAtom (Lit c))) (tokens rest)
  end.

(** A repeat applies to the atom before it; a repeat with nothing before it,
    or after another repeat, is rejected. *)
Fixpoint group (ts : list token) : option regex :=
  match ts with
  | [] => Some []
  | TRepeat _ :: _ => None
  | TAtom a :: ts' =>
      match ts' with
      | TRepeat q :: ts'' => option_map (cons (a, q)) (group ts'')
      | _ => option_map (cons (a, Once)) (group ts')
      end
  end.

Definition compile (p : str) : option regex :=
  match tokens p with
  | Some ts => group ts
  | None => None
  end.

(** Case-insensitive match of an ASCII literal [l] against a text character:
    the two ASCII cases of a letter, and the four non-ASCII letters that
    Unicode case folding equates with [i], [s] and [k]. *)
Definition lit_ignorecase (l c : char) : bool :=
  let lo := ascii_lower l in
  ((ascii_lower c =? lo)
   || (lo =? ord "i") && ((c =? 304) || (c =? 305))
   || (lo =? ord "s") && (c =? 383)
   || (lo =? ord "k") && (c =? 8490))%N.

(** [ic] is the [re.IGNORECASE] flag.  The wildcard matches everything but
    a line feed (no [re.DOTALL]). *)
Definition atom_match (ic : bool) (a : atom) (c : char) : bool :=
  match a with
  | Lit l => if ic then lit_ignorecase l c else (c =? l)%N
  | Space => isspace c
  | Any => negb (c =? 10)%N
  end.

(** Zero or more characters satisfying [p], then the continuation [k].  The
    engine tries the longest repetition first; whether a match exists does
    not depend on that order. *)
Fixpoint repeat_then (p : char -> bool) (k : str -> bool) (s : str) : bool :=
  k s || match s with
         | [] => false
         | c :: s' => p c && repeat_then p k s'
         end.

(** Does the pattern match at the start of [s]? *)
Fixpoint match_here (ic : bool) (r : regex) : str -> bool :=
  match r with
  | [] => fun _ => true
  | (a, q) :: r' =>
      match q with
      | Once => fun s =>
          match s with
          | [] => false
          | c :: s' => atom_match ic a c && match_here ic r' s'
          end
      | OneOrMore => fun s =>
          match s with
          | [] => false
          | c :: s' =>
              atom_match ic a c
              && repeat_then (atom_match ic a) (match_here ic r') s'
          end
      | ZeroOrMore => repeat_then (atom_match ic a) (match_here ic r')
      end
  end.

(** [re.search]: a match starting at any position. *)
Fixpoint search (ic : bool) (r : regex) (s : str) : bool :=
  match_here ic r s || match s with
                       | [] => false
                       | _ :: s' => search ic r s'
                       end.

(** The words of a pattern. *)
Fixpoint Lang (ic : bool) (r : regex) (w : str) : Prop :=
  match r with
  | [] => w = []
  | (a, Once) :: r' =>
      exists c w', w = c :: w' /\ atom_match ic a c = true /\ Lang ic r' w'
  | (a, OneOrMore) :: r' =>
      exists c cs w', w = c :: cs ++ w' /\ atom_match ic a c = true
        /\ Forall (fun x => atom_match ic a x = true) cs /\ Lang ic r' w'
  | (a, ZeroOrMore) :: r' =>
      exists cs w', w = cs ++ w'
        /\ Forall (fun x => atom_match ic a x = true) cs /\ Lang ic r' w'
  end.

End Re.

(** ** Decoded JSON and exceptions *)

(** What [json.loads] returns.  A float is kept by its literal: the hook
    inspects the type of a value and the contents of strings only.  A dict
    is the list of its bindings; a key is looked up from the front. *)
#[warnings="-register-all"]
Inductive value : Type :=
| VNone
| VBool (b : bool)
| VInt (z : Z)
| VFloat (literal : str)
| VStr (s : str)
| VList (l : list value)
| VDict (items : list (str * value)).

Definition type_name (v : value) : str :=
  match v with
  | VNone => u "NoneType"
  | VBool _ => u "bool"
  | VInt _ => u "int"
  | VFloat _ => u "float"
  | VStr _ => u "str"
  | VList _ => u "list"
  | VDict _ => u "dict"
  end.

(** The exceptions the body of [main] can see.  [LoadError] is whatever
    reading and decoding standard input raised, with its message.
    [ReError] is [re.error], for a pattern that [Re.compile] refuses; no
    pattern of the table is refused (lemma [table_compiles]), and the text
    of its message is not modelled. *)
Inductive exn : Type :=
| LoadError (msg : str)
| AttributeError (obj_type attr : str)
| TypeError (got : str)
| ReError (pattern : str).

(** [str(e)]; the wording of [TypeError] is the one of CPython 3.11 and
    later. *)
Definition str_of_exn (e : exn) : str :=
  match e with
  | LoadError msg => msg
  | AttributeError t a =>
      u "'" ++ t ++ u "' object has no attribute '" ++ a ++ u "'"
  | TypeError t => u "expected string or bytes-like object, got '" ++ t ++ u "'"
  | ReError p => u "cannot compile pattern " ++ p
  end.

(** Computations that return or raise. *)
Definition M (A : Type) : Type := (exn + A)%type.

Definition ret {A} (a : A) : M A := inr a.
Definition raise {A} (e : exn) : M A := inl e.
Definition bind {A B} (m : M A) (k : A -> M B) : M B :=
  match m with
  | inl e => inl e
  | inr a => k a
  end.

Notation "x <- m ;; k" := (bind m (fun x => k))
  (at level 61, m at next level, right associativity).
Notation "' pat <- m ;; k" := (bind m (fun x => match x with pat => k end))
  (at level 61, pat pattern, m at next level, right associativity).

(** [d.get(key, default)]: on a dict the binding of [key], or [default]; on
    any other value there is no attribute [get]. *)
Fixpoint lookup (key : str) (items : list (str * value)) : option value :=
  match items with
  | [] => None
  | (k, v) :: rest => if str_eqb k key then Some v else lookup key rest
  end.

Definition get (d : value) (key : str) (default : value) : M value :=
  match d with
  | VDict items =>
      ret (match lookup key items with Some v => v | None => default end)
  | _ => raise (AttributeError (type_name d) (u "get"))
  end.

(** [v != s] for a string literal [s]: values of other types differ from
    every string. *)
Definition ne_str (v : value) (s : str) : bool :=
  match v with
  | VStr t => negb (str_eqb t s)
  | _ => true
  end.

(** [re.search(pattern, string, flags)], as a truth value: the pattern is
    compiled first, then a subject that is not a string is refused. *)
Definition IGNORECASE : bool := true.

Definition re_search (pattern : str) (string : value) (flags : bool) : M bool :=
  match Re.compile pattern with
  | None => raise (ReError pattern)
  | Some r =>
      match string with
      | VStr s => ret (Re.search flags r s)
      | _ => raise (TypeError (type_name string))
      end
  end.

(** ** The hook *)

(** Module-level state: the pattern table is a global list. *)
Record globals : Type := { patterns : list str }.

Definition DANGEROUS_RM_PATTERNS : list str :=
  [ u "rm\s+-rf\s+/";
    u "rm\s+-rf\s+~";
    u "rm\s+-rf\s+\$HOME";
    u "rm\s+-rf\s+\.\.";
    u "rm\s+-rf\s+\*";
    u "rm\s+-rf\s+\.";
    u "rm\s+-r\s+-f\s+/";
    u "rm\s+--recursive.*/" ].

Definition module_globals : globals :=
  {| patterns := DANGEROUS_RM_PATTERNS |}.

Definition blocked_prefix : str := u "Blocked dangerous rm command matching: ".

(** The loop of [check_dangerous_command] over the table. *)
Fixpoint check_patterns (ps : list str) (command : value) : M (bool * str) :=
  match ps with
  | [] => ret (false, [])
  | pattern :: rest =>
      found <- re_search pattern command IGNORECASE ;;
      if found then ret (true, blocked_prefix ++ pattern)
      else check_patterns rest command
  end.

Definition check_dangerous_command (g : globals) (command : value)
  : M (bool * str) :=
  check_patterns (patterns g) command.

(** The JSON object the hook prints, and the stream it prints it to. *)
Inductive Decision : Type :=
| Approved (warning : option str)
| Blocked (reason : str).

Inductive stream : Type := Stdout | Stderr.

Definition output : Type := (stream * Decision)%type.

(** The body of the [try] block after the request has been decoded. *)
Definition try_body (g : globals) (input_data : value) : M Decision :=
  tool_name <- get input_data (u "tool_name") (VStr []) ;;
  tool_input <- get input_data (u "tool_input") (VDict []) ;;
  if ne_str tool_name (u "Bash") then ret (Approved None)
  else
    command <- get tool_input (u "command") (VStr []) ;;
    '(is_dangerous, reason) <- check_dangerous_command g command ;;
    if is_dangerous then ret (Blocked reason) else ret (Approved None).

(** [main].  [loaded] is the outcome of [json.loads(sys.stdin.read())]: the
    decoded value, or the exception raised.  The globals are returned as the
    call leaves them. *)
Definition main (g : globals) (loaded : M value) : globals * output :=
  match bind loaded (try_body g) with
  | inr d => (g, (Stdout, d))
  | inl e => (g, (Stderr, Approved (Some (u "Hook error: " ++ str_of_exn e))))
  end.

(** The spec's [evaluate]: the hook on a decoded request, from the globals
    of the module as loaded. *)
Definition evaluate (request : value) : output :=
  snd (main module_globals (inr request)).

(** A request of the shell tool with the given command. *)
Definition bash_request (command : str) : value :=
  VDict [ (u "tool_name", VStr (u "Bash"));
          (u "tool_input", VDict [ (u "command", VStr command) ]) ].

(** ** Vocabulary of the properties *)

(** The rule [pattern] fires on [command]: [re.search] finds a match. *)
Definition fires (pattern command : str) : bool :=
  match Re.compile pattern with
  | Some r => Re.search IGNORECASE r command
  | None => false
  end.

(** [w] spells the ASCII word [word] up to the case-insensitive match of
    each of its letters. *)
Definition ic_word (word w : str) : Prop :=
  Forall2 (fun l c => Re.lit_ignorecase l c = true) word w.

(** The pattern of a word written letter by letter. *)
Definition literal (word : str) : Re.regex :=
  map (fun l => (Re.Lit l, Re.Once)) word.

(** A non-empty run of whitespace characters. *)
Definition whitespace (ws : str) : Prop :=
  ws <> [] /\ Forall (fun c => isspace c = true) ws.

(** The reason the hook reports for a rule. *)
Definition reason_of (pattern : str) : str :=
  u "Blocked dangerous rm command matching: " ++ pattern.

Definition root_rule : str := u "rm\s+-rf\s+/".
Definition long_form_rule : str := u "rm\s+--recursive.*/".

Definition parent_rule : str := u "rm\s+-rf\s+\.\.".
Definition dot_rule : str := u "rm\s+-rf\s+\.".
Definition separated_flags_rule : str := u "rm\s+-r\s+-f\s+/".

(** The value [d.get(key, default)] returns on a dict with these bindings. *)
Definition field (items : list (str * value)) (key : str) (default : value)
  : value :=
  match lookup key items with
  | Some v => v
  | None => default
  end.

Definition is_str (v : value) : bool :=
  match v with
  | VStr _ => true
  | _ => false
  end.

(** The decoded requests on which the guarded part of [main] raises: a value
    that is not a dict, or a dict for the shell tool whose [tool_input] is
    not a dict or whose [command] is not a string. *)
Definition malformed_request (v : value) : bool :=
  match v with
  | VDict items =>
      negb (ne_str (field items (u "tool_name") (VStr [])) (u "Bash"))
      && match field items (u "tool_input") (VDict []) with
         | VDict items' =>
             negb (is_str (field items' (u "command") (VStr [])))
         | _ => true
         end
  | _ => true
  end.

(** The characters a rule of the table can end its match on. *)
Definition target_chars : str := u "/~$.*".

(** The pattern has a mandatory literal among [target_chars]. *)
Definition has_target (r : Re.regex) : bool :=
  existsb (fun it : Re.item =>
             match it with
             | (Re.Lit l, Re.Once) => existsb (N.eqb l) target_chars
             | _ => false
             end) r.

(** The outcome of the guarded part of [main] is the exception [e]. *)
Definition raises (g : globals) (loaded : M value) (e : exn) : Prop :=
  bind loaded (try_body g) = inl e.

(** ** The hook with the state a call can touch

    Within one process a call of [main] can reach two pieces of mutable
    state: the list bound to [DANGEROUS_RM_PATTERNS], and the cache of
    compiled patterns that [re.search] consults and fills ([re._cache],
    keyed by pattern and flags, the oldest entry dropped when it is full).
    Here every step of the hook is a transformer of that state. *)

Module Stateful.

(** A compiled pattern object: the pattern and the flags it was compiled
    with. *)
Record Pattern : Type := { p_regex : Re.regex; p_flags : bool }.

Definition cache_key : Type := (str * bool)%type.

Record world : Type := {
  table : list str;
  re_cache : list (cache_key * Pattern)
}.

Definition MAXCACHE : nat := 512.

Definition key_eqb (a b : cache_key) : bool :=
  str_eqb (fst a) (fst b) && Bool.eqb (snd a) (snd b).

Fixpoint cache_find (key : cache_key) (cache : list (cache_key * Pattern))
  : option Pattern :=
  match cache with
  | [] => None
  | (k, p) :: rest => if key_eqb k key then Some p else cache_find key rest
  end.

(** A computation that returns or raises, and leaves a state behind in
    either case. *)
Definition ST (A : Type) : Type := world -> (exn + A) * world.

Definition ret {A} (a : A) : ST A := fun w => (inr a, w).
Definition raise {A} (e : exn) : ST A := fun w => (inl e, w).
Definition bind {A B} (m : ST A) (k : A -> ST B) : ST B :=
  fun w =>
    match m w with
    | (inl e, w') => (inl e, w')
    | (inr a, w') => k a w'
    end.

(** A step that does not touch the state. *)
Definition pure {A} (m : M A) : ST A := fun w => (m, w).

Notation "x <-- m ;; k" := (bind m (fun x => k))
  (at level 61, m at next level, right associativity).
Notation "' pat <-- m ;; k" := (bind m (fun x => match x with pat => k end))
  (at level 61, pat pattern, m at next level, right associativity).

(** [re._compile]: the cached object on a hit; on a miss the pattern is
    compiled and stored, after the oldest entry has been dropped from a full
    cache.  A pattern that does not compile raises and stores nothing. *)
Definition re_compile (pattern : str) (flags : bool) : ST Pattern :=
  fun w =>
    match cache_find (pattern, flags) (re_cache w) with
    | Some p => (inr p, w)
    | None =>
        match Re.compile pattern with
        | None => (inl (ReError pattern), w)
        | Some r =>
            let p := {| p_regex := r; p_flags := flags |} in
            let kept := if Nat.leb MAXCACHE (List.length (re_cache w))
                        then tl (re_cache w) else re_cache w in
            (inr p,
             {| table := table w;
                re_cache := kept ++ [((pattern, flags), p)] |})
        end
    end.

(** [re.search(pattern, string, flags)]:
    [_compile(pattern, flags).search(string)]. *)
Definition re_search (pattern : str) (string : value) (flags : bool)
  : ST bool :=
  p <-- re_compile pattern flags ;;
  match string with
  | VStr s => ret (Re.search (p_flags p) (p_regex p) s)
  | _ => raise (TypeError (type_name string))
  end.

(** The loop of [check_dangerous_command]; its body does not write the
    list it iterates over. *)
Fixpoint check_patterns (ps : list str) (command : value) : ST (bool * str) :=
  match ps with
  | [] => ret (false, [])
  | pattern :: rest =>
      found <-- re_search pattern command IGNORECASE ;;
      if found then ret (true, blocked_prefix ++ pattern)
      else check_patterns rest command
  end.

Definition check_dangerous_command (command : value) : ST (bool * str) :=
  fun w => check_patterns (table w) command w.

Definition try_body (input_data : value) : ST Decision :=
  tool_name <-- pure (get input_data (u "tool_name") (VStr [])) ;;
  tool_input <-- pure (get input_data (u "tool_input") (VDict [])) ;;
  if ne_str tool_name (u "Bash") then ret (Approved None)
  else
    command <-- pure (get tool_input (u "command") (VStr [])) ;;
    '(is_dangerous, reason) <-- check_dangerous_command command ;;
    if is_dangerous then ret (Blocked reason) else ret (Approved None).

(** [main]: what it prints, and the state it leaves. *)
Definition main (loaded : M value) : world -> output * world :=
  fun w =>
    match bind (pure loaded) try_body w with
    | (inr d, w') => ((Stdout, d), w')
    | (inl e, w') =>
        ((Stderr, Approved (Some (u "Hook error: " ++ str_of_exn e))), w')
    end.



End Stateful.

(** ** The matcher and the words of a pattern *)

Section Matcher.

Import Re.

Lemma repeat_then_iff (p : char -> bool) (k : str -> bool) (s : str) :
  repeat_then p k s = true <->
  exists cs rest,
    s = cs ++ rest /\ Forall (fun x => p x = true) cs /\ k rest = true.
Proof.
  split.
  - induction s as [|c s IH]; simpl; intros H.
    + rewrite orb_false_r in H. exists [], []. auto.
    + apply orb_true_iff in H as [H|H].
      * exists [], (c :: s). auto.
      * apply andb_true_iff in H as [Hc H].
        destruct (IH H) as (cs & rest & -> & Hall & Hk).
        exists (c :: cs), rest. auto.
  - intros (cs & rest & -> & Hall & Hk).
    induction Hall as [|c cs Hc Hall IH]; simpl.
    + destruct rest; simpl; rewrite Hk; reflexivity.
    + rewrite Hc, IH. apply orb_true_r.
Qed.

Lemma match_here_iff (ic : bool) (r : regex) :
  forall s, match_here ic r s = true <->
            exists w rest, s = w ++ rest /\ Lang ic r w.
Proof.
  induction r as [|[a q] r IH]; intros s.
  - simpl. split; [intros _; exists [], s; auto | reflexivity].
  - destruct q; simpl.
    + destruct s as [|c s].
      * split; [discriminate|].
        intros (w & rest & E & c & w' & -> & _). discriminate.
      * rewrite andb_true_iff, IH. split.
        -- intros (Hc & w & rest & -> & Hw).
           exists (c :: w), rest. split; [reflexivity|]. exists c, w. auto.
        -- intros (w & rest & E & c' & w' & -> & Hc & Hw).
           injection E as -> ->. split; [assumption|]. exists w', rest. auto.
    + destruct s as [|c s].
      * split; [discriminate|].
        intros (w & rest & E & c & cs & w' & -> & _). discriminate.
      * rewrite andb_true_iff, repeat_then_iff. split.
        -- intros (Hc & cs & tl & -> & Hall & Hk).
           apply IH in Hk as (w & rest & -> & Hw).
           exists (c :: cs ++ w), rest. split.
           ++ simpl. rewrite <- app_assoc. reflexivity.
           ++ exists c, cs, w. auto.
        -- intros (w & rest & E & c' & cs & w' & -> & Hc & Hall & Hw).
           simpl in E. injection E as -> ->. split; [assumption|].
           exists cs, (w' ++ rest). rewrite <- app_assoc.
           repeat split; auto. apply IH. exists w', rest. auto.
    + rewrite repeat_then_iff. split.
      * intros (cs & tl & -> & Hall & Hk).
        apply IH in Hk as (w & rest & -> & Hw).
        exists (cs ++ w), rest. rewrite <- app_assoc. split; [reflexivity|].
        exists cs, w. auto.
      * intros (w & rest & -> & cs & w' & -> & Hall & Hw).
        exists cs, (w' ++ rest). rewrite <- app_assoc.
        repeat split; auto. apply IH. exists w', rest. auto.
Qed.

Lemma search_iff (ic : bool) (r : regex) (s : str) :
  search ic r s = true <->
  exists pre w post, s = pre ++ w ++ post /\ Lang ic r w.
Proof.
  split.
  - induction s as [|c s IH]; simpl; intros H.
    + rewrite orb_false_r in H. apply match_here_iff in H as (w & rest & E & Hw).
      exists [], w, rest. auto.
    + apply orb_true_iff in H as [H|H].
      * apply match_here_iff in H as (w & rest & E & Hw).
        exists [], w, rest. auto.
      * destruct (IH H) as (pre & w & post & -> & Hw).
        exists (c :: pre), w, post. auto.
  - intros (pre & w & post & -> & Hw).
    induction pre as [|c pre IH]; simpl.
    + assert (H : match_here ic r (w ++ post) = true)
        by (apply match_here_iff; exists w, post; auto).
      destruct (w ++ post); simpl; rewrite H; reflexivity.
    + rewrite IH. apply orb_true_r.
Qed.

End Matcher.

(** ** Letter case *)

Section LetterCase.

Import Re.

(** Settles the comparisons of code points in a goal, case by case. *)
Ltac cmp_cases :=
  repeat match goal with
    | |- context [(?a =? ?b)%N] => destruct (N.eqb_spec a b); try lia
    | |- context [(?a <=? ?b)%N] => destruct (N.leb_spec a b); try lia
    end;
  try reflexivity.

Lemma ascii_lower_idem (c : char) : ascii_lower (ascii_lower c) = ascii_lower c.
Proof.
  unfold ascii_lower at 2.
  destruct ((65 <=? c) && (c <=? 90))%N eqn:E; unfold ascii_lower.
  - apply andb_true_iff in E as [E1 E2]. apply N.leb_le in E1, E2. cmp_cases.
  - rewrite E. reflexivity.
Qed.

Lemma lit_ignorecase_lower (l c : char) :
  lit_ignorecase l (ascii_lower c) = lit_ignorecase l c.
Proof.
  unfold lit_ignorecase. generalize (ascii_lower l) as lo. intro lo.
  change (ord "i") with 105%N. change (ord "s") with 115%N.
  change (ord "k") with 107%N.
  rewrite ascii_lower_idem.
  destruct ((65 <=? c) && (c <=? 90))%N eqn:E.
  - assert (L : ascii_lower c = (c + 32)%N)
      by (unfold ascii_lower; rewrite E; reflexivity).
    rewrite L. apply andb_true_iff in E as [E1 E2]. apply N.leb_le in E1, E2.
    cmp_cases.
  - assert (L : ascii_lower c = c)
      by (unfold ascii_lower; rewrite E; reflexivity).
    rewrite L. reflexivity.
Qed.

Lemma isspace_lower (c : char) : isspace (ascii_lower c) = isspace c.
Proof.
  unfold ascii_lower.
  destruct ((65 <=? c) && (c <=? 90))%N eqn:E; [|reflexivity].
  apply andb_true_iff in E as [E1 E2]. apply N.leb_le in E1, E2.
  unfold isspace. cmp_cases.
Qed.

Lemma atom_match_lower (a : atom) (c : char) :
  atom_match IGNORECASE a (ascii_lower c) = atom_match IGNORECASE a c.
Proof.
  destruct a; simpl.
  - apply lit_ignorecase_lower.
  - apply isspace_lower.
  - unfold ascii_lower.
    destruct ((65 <=? c) && (c <=? 90))%N eqn:E; [|reflexivity].
    apply andb_true_iff in E as [E1 E2]. apply N.leb_le in E1, E2. cmp_cases.
Qed.

Lemma repeat_then_map (f : char -> char) (p : char -> bool) (k : str -> bool) :
  (forall c, p (f c) = p c) ->
  (forall s, k (map f s) = k s) ->
  forall s, repeat_then p k (map f s) = repeat_then p k s.
Proof.
  intros Hp Hk. induction s as [|c s IH]; simpl.
  - reflexivity.
  - rewrite <- (Hk (c :: s)). simpl. rewrite Hp, IH. reflexivity.
Qed.

Lemma match_here_lower (r : regex) :
  forall s, match_here IGNORECASE r (lower s) = match_here IGNORECASE r s.
Proof.
  induction r as [|[a q] r IH]; intros s; [reflexivity|].
  destruct q; simpl.
  - destruct s as [|c s]; simpl; [reflexivity|].
    rewrite atom_match_lower. unfold lower in IH. rewrite IH. reflexivity.
  - destruct s as [|c s]; simpl; [reflexivity|].
    rewrite atom_match_lower. f_equal.
    apply repeat_then_map; [apply atom_match_lower | exact IH].
  - apply repeat_then_map; [apply atom_match_lower | exact IH].
Qed.

Lemma search_lower (r : regex) (s : str) :
  search IGNORECASE r (lower s) = search IGNORECASE r s.
Proof.
  induction s as [|c s IH].
  - reflexivity.
  - change (lower (c :: s)) with (ascii_lower c :: lower s).
    cbn [search]. rewrite IH.
    change (ascii_lower c :: lower s) with (lower (c :: s)).
    rewrite match_here_lower. reflexivity.
Qed.

Lemma fires_lower (p s : str) : fires p (lower s) = fires p s.
Proof. unfold fires. destruct (compile p); [apply search_lower | reflexivity]. Qed.

Lemma fires_same_letters (p a b : str) :
  lower a = lower b -> fires p a = fires p b.
Proof. intros E. rewrite <- (fires_lower p a), E. apply fires_lower. Qed.

End LetterCase.

(** ** The loop over the table and the shape of [main] *)

Section Hook.

Lemma str_eqb_eq (a b : str) : str_eqb a b = true <-> a = b.
Proof.
  revert b. induction a as [|x a IH]; destruct b as [|y b]; simpl;
    try (split; [discriminate | discriminate]); [tauto|].
  rewrite andb_true_iff, N.eqb_eq, IH. split.
  - intros [-> ->]. reflexivity.
  - intros E. injection E as -> ->. auto.
Qed.

Lemma ne_str_true_iff (v : value) (s : str) :
  ne_str v s = true <-> v <> VStr s.
Proof.
  destruct v; simpl; try (split; [discriminate | reflexivity]).
  rewrite negb_true_iff. split.
  - intros E H. injection H as ->.
    assert (T : str_eqb s s = true) by (apply str_eqb_eq; reflexivity).
    congruence.
  - intros H. destruct (str_eqb s0 s) eqn:E; [|reflexivity].
    apply str_eqb_eq in E. congruence.
Qed.

Lemma table_compiles :
  Forall (fun p => Re.compile p <> None) DANGEROUS_RM_PATTERNS.
Proof.
  unfold DANGEROUS_RM_PATTERNS.
  repeat (constructor; [vm_compute; discriminate|]). constructor.
Qed.

Lemma re_search_str (p s : str) :
  Re.compile p <> None ->
  re_search p (VStr s) IGNORECASE = inr (fires p s).
Proof.
  unfold re_search, fires. destruct (Re.compile p); [reflexivity | congruence].
Qed.

Lemma check_patterns_first (before : list str) (p : str) (after : list str)
      (command : str) :
  Forall (fun q => Re.compile q <> None) (before ++ p :: after) ->
  (forall q, In q before -> fires q command = false) ->
  fires p command = true ->
  check_patterns (before ++ p :: after) (VStr command)
  = inr (true, blocked_prefix ++ p).
Proof.
  induction before as [|q before IH]; simpl; intros Hc Hb Hp;
    inversion Hc as [|? ? Hq Hc']; subst;
    rewrite re_search_str by assumption; unfold bind.
  - rewrite Hp. reflexivity.
  - rewrite (Hb q) by auto. apply IH; auto.
Qed.

Lemma check_patterns_none (ps : list str) (command : str) :
  Forall (fun q => Re.compile q <> None) ps ->
  Forall (fun q => fires q command = false) ps ->
  check_patterns ps (VStr command) = inr (false, []).
Proof.
  induction ps as [|q ps IH]; simpl; intros Hc Hf; [reflexivity|].
  inversion Hc; inversion Hf; subst.
  rewrite re_search_str by assumption. unfold bind.
  replace (fires q command) with false by auto. apply IH; assumption.
Qed.

(** The loop depends on the command through the rules that fire only. *)
Lemma check_patterns_ext (ps : list str) (a b : str) :
  (forall p, fires p a = fires p b) ->
  check_patterns ps (VStr a) = check_patterns ps (VStr b).
Proof.
  intros E. induction ps as [|q ps IH]; simpl; [reflexivity|].
  unfold re_search. destruct (Re.compile q) as [r|] eqn:C; [|reflexivity].
  assert (F : Re.search IGNORECASE r a = Re.search IGNORECASE r b).
  { generalize (E q). unfold fires. rewrite C. auto. }
  rewrite F, IH. reflexivity.
Qed.

(** [main] on a request of the shell tool. *)
Lemma evaluate_bash (command : str) :
  evaluate (bash_request command) =
  match check_patterns DANGEROUS_RM_PATTERNS (VStr command) with
  | inr (true, reason) => (Stdout, Blocked reason)
  | inr (false, _) => (Stdout, Approved None)
  | inl e => (Stderr, Approved (Some (u "Hook error: " ++ str_of_exn e)))
  end.
Proof.
  unfold evaluate, main, try_body, check_dangerous_command, bash_request.
  cbn [bind get lookup patterns module_globals ne_str ret].
  change (str_eqb (u "tool_name") (u "tool_name")) with true.
  change (str_eqb (u "tool_name") (u "tool_input")) with false.
  change (str_eqb (u "tool_input") (u "tool_input")) with true.
  cbn [bind get lookup patterns module_globals ne_str ret].
  change (str_eqb (u "Bash") (u "Bash")) with true.
  change (str_eqb (u "command") (u "command")) with true.
  cbn [negb bind snd].
  destruct (check_patterns DANGEROUS_RM_PATTERNS (VStr command))
    as [e|[[] reason]]; reflexivity.
Qed.

Lemma evaluate_blocked (before : list str) (p : str) (after : list str)
      (command : str) :
  DANGEROUS_RM_PATTERNS = before ++ p :: after ->
  (forall q, In q before -> fires q command = false) ->
  fires p command = true ->
  evaluate (bash_request command) = (Stdout, Blocked (reason_of p)).
Proof.
  intros E Hb Hp. rewrite evaluate_bash.
  pose proof table_compiles as Hc. rewrite E in *.
  rewrite check_patterns_first by assumption. reflexivity.
Qed.

End Hook.

(** ** The words of the rules *)

Section Words.

Import Re.

Lemma Lang_app (ic : bool) (r1 r2 : regex) :
  forall w, Lang ic (r1 ++ r2) w <->
            exists w1 w2, w = w1 ++ w2 /\ Lang ic r1 w1 /\ Lang ic r2 w2.
Proof.
  induction r1 as [|[a q] r1 IH]; intros w.
  - simpl. split.
    + intros H. exists [], w. auto.
    + intros (w1 & w2 & -> & -> & H). exact H.
  - destruct q; cbn [app Lang]; split.
    + intros (c & w' & -> & Hc & H). apply IH in H as (w1 & w2 & -> & H1 & H2).
      exists (c :: w1), w2. split; [reflexivity|]. split; [|assumption].
      exists c, w1. auto.
    + intros (w1 & w2 & -> & (c & w' & -> & Hc & H1) & H2).
      exists c, (w' ++ w2). split; [reflexivity|]. split; [assumption|].
      apply IH. exists w', w2. auto.
    + intros (c & cs & w' & -> & Hc & Hall & H).
      apply IH in H as (w1 & w2 & -> & H1 & H2).
      exists (c :: cs ++ w1), w2. split.
      * simpl. rewrite <- app_assoc. reflexivity.
      * split; [|assumption]. exists c, cs, w1. auto.
    + intros (w1 & w2 & -> & (c & cs & w' & -> & Hc & Hall & H1) & H2).
      exists c, cs, (w' ++ w2). split.
      * simpl. rewrite <- app_assoc. reflexivity.
      * repeat split; auto. apply IH. exists w', w2. auto.
    + intros (cs & w' & -> & Hall & H).
      apply IH in H as (w1 & w2 & -> & H1 & H2).
      exists (cs ++ w1), w2. split.
      * rewrite <- app_assoc. reflexivity.
      * split; [|assumption]. exists cs, w1. auto.
    + intros (w1 & w2 & -> & (cs & w' & -> & Hall & H1) & H2).
      exists cs, (w' ++ w2). split.
      * rewrite <- app_assoc. reflexivity.
      * split; [assumption|]. apply IH. exists w', w2. auto.
Qed.

Lemma Lang_literal (word w : str) :
  Lang IGNORECASE (literal word) w <-> ic_word word w.
Proof.
  revert w. induction word as [|l word IH]; intros w; simpl.
  - split.
    + intros ->. constructor.
    + intros H. inversion H. reflexivity.
  - split.
    + intros (c & w' & -> & Hc & H). constructor; [exact Hc | apply IH, H].
    + intros H. inversion H as [|? c ? w' Hc Hw]; subst.
      exists c, w'. repeat split; [exact Hc | apply IH, Hw].
Qed.

Lemma Lang_spaces (ic : bool) (ws : str) :
  Lang ic [(Space, OneOrMore)] ws <-> whitespace ws.
Proof.
  unfold whitespace. simpl. split.
  - intros (c & cs & w' & -> & Hc & Hall & ->). rewrite app_nil_r.
    split; [discriminate | constructor; assumption].
  - intros [Hne Hall]. destruct ws as [|c cs]; [congruence|].
    inversion Hall; subst. exists c, cs, []. rewrite app_nil_r. auto.
Qed.

Lemma Lang_any (ic : bool) (w : str) :
  Lang ic [(Any, ZeroOrMore)] w <-> Forall (fun c => c <> 10%N) w.
Proof.
  simpl. split.
  - intros (cs & w' & -> & Hall & ->). rewrite app_nil_r.
    apply Forall_impl with (2 := Hall). intros c Hc.
    apply negb_true_iff, N.eqb_neq in Hc. exact Hc.
  - intros Hall. exists w, []. rewrite app_nil_r. repeat split.
    apply Forall_impl with (2 := Hall). intros c Hc.
    apply negb_true_iff, N.eqb_neq. exact Hc.
Qed.

Lemma ic_word_slash (w : str) : ic_word (u "/") w <-> w = u "/".
Proof.
  split.
  - intros H. inversion H as [|? c ? w' Hc Hw]; subst. inversion Hw; subst.
    change (u "/") with [47%N]. f_equal.
    revert Hc. unfold lit_ignorecase, ascii_lower.
    change (ord "/") with 47%N. change (ord "i") with 105%N.
    change (ord "s") with 115%N. change (ord "k") with 107%N. simpl.
    rewrite !orb_false_r.
    destruct ((65 <=? c) && (c <=? 90))%N eqn:E.
    + apply andb_true_iff in E as [E1 E2]. apply N.leb_le in E1, E2.
      intros Hc. apply N.eqb_eq in Hc. lia.
    + intros Hc. apply N.eqb_eq in Hc. exact Hc.
  - intros ->. repeat constructor.
Qed.

(** A rule that fires on a word fires on every text that contains it. *)
Lemma fires_substring (p w pre post : str) :
  fires p w = true -> fires p (pre ++ w ++ post) = true.
Proof.
  unfold fires. destruct (compile p) as [r|]; [|discriminate].
  rewrite !search_iff. intros (a & x & b & -> & Hx).
  exists (pre ++ a), x, (b ++ post). split; [|assumption].
  rewrite <- !app_assoc. reflexivity.
Qed.

End Words.

(** ** Outcomes of the loop *)

Section Outcomes.

Lemma check_patterns_some (ps : list str) (p command : str) :
  Forall (fun q => Re.compile q <> None) ps ->
  In p ps -> fires p command = true ->
  exists q, In q ps /\ fires q command = true
            /\ check_patterns ps (VStr command) = inr (true, reason_of q).
Proof.
  induction ps as [|a ps IH]; simpl; intros Hc Hin Hp; [contradiction|].
  inversion Hc; subst. rewrite re_search_str by assumption. unfold bind.
  destruct (fires a command) eqn:Fa.
  - exists a. auto.
  - destruct Hin as [->|Hin]; [congruence|].
    destruct (IH H2 Hin Hp) as (q & Hq & Fq & E). exists q. auto.
Qed.

Lemma check_patterns_inv (ps : list str) (command : str) :
  Forall (fun q => Re.compile q <> None) ps ->
  check_patterns ps (VStr command) = inr (false, [])
  \/ exists q, In q ps /\ fires q command = true
               /\ check_patterns ps (VStr command) = inr (true, reason_of q).
Proof.
  induction ps as [|a ps IH]; simpl; intros Hc; [left; reflexivity|].
  inversion Hc; subst. rewrite re_search_str by assumption. unfold bind.
  destruct (fires a command) eqn:Fa.
  - right. exists a. auto.
  - destruct (IH H2) as [E|(q & Hq & Fq & E)]; [left; exact E|].
    right. exists q. auto.
Qed.

(** On a string the table lets the hook either approve or block with the
    reason of a rule that fires. *)
Lemma evaluate_bash_inv (command : str) :
  evaluate (bash_request command) = (Stdout, Approved None)
  \/ exists q, In q DANGEROUS_RM_PATTERNS /\ fires q command = true
               /\ evaluate (bash_request command)
                  = (Stdout, Blocked (reason_of q)).
Proof.
  rewrite evaluate_bash.
  destruct (check_patterns_inv command table_compiles)
    as [E|(q & Hq & Fq & E)]; rewrite E.
  - left. reflexivity.
  - right. exists q. auto.
Qed.

Lemma evaluate_blocked_some (p command : str) :
  In p DANGEROUS_RM_PATTERNS -> fires p command = true ->
  exists q, In q DANGEROUS_RM_PATTERNS /\ fires q command = true
            /\ evaluate (bash_request command)
               = (Stdout, Blocked (reason_of q)).
Proof.
  intros Hin Hp.
  destruct (@check_patterns_some _ p command table_compiles Hin Hp)
    as (q & Hq & Fq & E).
  exists q. rewrite evaluate_bash, E. auto.
Qed.

(** A command that is not a string makes [re.search] raise on the first
    rule. *)
Lemma check_patterns_not_str (command : value) :
  (forall s, command <> VStr s) ->
  check_patterns DANGEROUS_RM_PATTERNS command
  = inl (TypeError (type_name command)).
Proof.
  intros H. destruct command; try reflexivity. exfalso. apply (H s). reflexivity.
Qed.

End Outcomes.

(** ** Properties of the hook *)

(** C1: a request whose [tool_name] is not exactly ["Bash"] (or has none) is
    approved on standard output with no warning, whatever [tool_input] is
    bound to, and also when it is not bound at all. *)
Theorem non_bash_request_approved (items : list (str * value))
        (tool_name : value) :
  get (VDict items) (u "tool_name") (VStr []) = inr tool_name ->
  tool_name <> VStr (u "Bash") ->
  evaluate (VDict items) = (Stdout, Approved None).
Proof.
  intros Hget Hne. apply ne_str_true_iff in Hne.
  unfold evaluate, main, try_body. cbn [bind]. rewrite Hget. cbn [bind get ret].
  rewrite Hne. reflexivity.
Qed.

Lemma non_bash_request_approved_witness :
  let items := [ (u "tool_name", VStr (u "Read")); (u "tool_input", VInt 7) ] in
  get (VDict items) (u "tool_name") (VStr []) = inr (VStr (u "Read"))
  /\ VStr (u "Read") <> VStr (u "Bash")
  /\ evaluate (VDict items) = (Stdout, Approved None).
Proof.
  simpl. split; [reflexivity|]. split; [discriminate|].
  apply (@non_bash_request_approved
           [ (u "tool_name", VStr (u "Read")); (u "tool_input", VInt 7) ]
           (VStr (u "Read"))); [reflexivity | discriminate].
Defined.

(** C2: a shell command that contains [rm -rf /], in any letter case and
    with any text around it, is blocked, and the reason is the one of the
    first rule of the table. *)
Theorem rm_rf_root_blocked (pre w post : str) :
  lower w = u "rm -rf /" ->
  evaluate (bash_request (pre ++ w ++ post))
  = (Stdout, Blocked (u "Blocked dangerous rm command matching: rm\s+-rf\s+/")).
Proof.
  intros Hw.
  apply (@evaluate_blocked [] root_rule (tl DANGEROUS_RM_PATTERNS));
    [reflexivity | intros q [] |].
  rewrite <- fires_lower. unfold lower. rewrite !map_app. fold (lower w).
  rewrite Hw. apply fires_substring. reflexivity.
Qed.

Lemma rm_rf_root_blocked_witness :
  lower (u "rm -rf /") = u "rm -rf /"
  /\ evaluate (bash_request ([] ++ u "rm -rf /" ++ u "tmp/safe && echo done"))
     = (Stdout, Blocked (u "Blocked dangerous rm command matching: rm\s+-rf\s+/")).
Proof.
  split; [reflexivity|].
  apply (@rm_rf_root_blocked [] (u "rm -rf /") (u "tmp/safe && echo done")).
  reflexivity.
Defined.

(** C3: a shell command that contains one of [rm -rf ~], [rm -rf $HOME],
    [rm -rf ..], [rm -rf *] or [rm -rf .] is blocked, with the reason of a
    rule of the table that fires on it. *)
Theorem rm_rf_home_parent_wildcard_dot_blocked (pre w post : str) :
  In w [ u "rm -rf ~"; u "rm -rf $HOME"; u "rm -rf ..";
         u "rm -rf *"; u "rm -rf ." ] ->
  exists q, In q DANGEROUS_RM_PATTERNS
            /\ evaluate (bash_request (pre ++ w ++ post))
               = (Stdout, Blocked (reason_of q)).
Proof.
  intros Hw.
  assert (F : exists p, In p DANGEROUS_RM_PATTERNS /\ fires p w = true).
  { simpl in Hw.
    destruct Hw as [<-|[<-|[<-|[<-|[<-|[]]]]]];
      [ exists (u "rm\s+-rf\s+~") | exists (u "rm\s+-rf\s+\$HOME")
      | exists (u "rm\s+-rf\s+\.\.") | exists (u "rm\s+-rf\s+\*")
      | exists (u "rm\s+-rf\s+\.") ];
      (split; [simpl; tauto | reflexivity]). }
  destruct F as (p & Hin & Hp).
  destruct (@evaluate_blocked_some p (pre ++ w ++ post) Hin
              (fires_substring p w pre post Hp)) as (q & Hq & _ & E).
  exists q. auto.
Qed.

Lemma rm_rf_home_parent_wildcard_dot_blocked_witness :
  In (u "rm -rf $HOME")
     [ u "rm -rf ~"; u "rm -rf $HOME"; u "rm -rf .."; u "rm -rf *"; u "rm -rf ." ]
  /\ exists q, In q DANGEROUS_RM_PATTERNS
               /\ evaluate (bash_request (u "sudo " ++ u "rm -rf $HOME" ++ u "/x"))
                  = (Stdout, Blocked (reason_of q)).
Proof.
  split; [simpl; tauto|].
  apply (@rm_rf_home_parent_wildcard_dot_blocked
           (u "sudo ") (u "rm -rf $HOME") (u "/x")).
  simpl; tauto.
Defined.

(** C4: when several rules fire on a shell command, the hook blocks with the
    reason of the earliest one in the order of the table, and that reason is
    exactly the fixed prefix followed by the text of that rule's pattern. *)
Theorem first_match_wins (before : list str) (p : str) (after : list str)
        (command : str) :
  DANGEROUS_RM_PATTERNS = before ++ p :: after ->
  (forall q, In q before -> fires q command = false) ->
  fires p command = true ->
  evaluate (bash_request command)
  = (Stdout, Blocked (u "Blocked dangerous rm command matching: " ++ p)).
Proof. apply evaluate_blocked. Qed.

Lemma first_match_wins_witness :
  let before := [ u "rm\s+-rf\s+/"; u "rm\s+-rf\s+~"; u "rm\s+-rf\s+\$HOME" ] in
  let p := u "rm\s+-rf\s+\.\." in
  let after := [ u "rm\s+-rf\s+\*"; u "rm\s+-rf\s+\.";
                 u "rm\s+-r\s+-f\s+/"; u "rm\s+--recursive.*/" ] in
  DANGEROUS_RM_PATTERNS = before ++ p :: after
  /\ (forall q, In q before -> fires q (u "rm -rf ..") = false)
  /\ fires p (u "rm -rf ..") = true
  /\ fires (u "rm\s+-rf\s+\.") (u "rm -rf ..") = true
  /\ evaluate (bash_request (u "rm -rf .."))
     = (Stdout, Blocked (u "Blocked dangerous rm command matching: " ++ p)).
Proof.
  assert (H : forall q,
             In q [ u "rm\s+-rf\s+/"; u "rm\s+-rf\s+~"; u "rm\s+-rf\s+\$HOME" ] ->
             fires q (u "rm -rf ..") = false).
  { intros q [<-|[<-|[<-|[]]]]; reflexivity. }
  split; [reflexivity|]. split; [exact H|]. split; [reflexivity|].
  split; [reflexivity|].
  apply (@first_match_wins
           [ u "rm\s+-rf\s+/"; u "rm\s+-rf\s+~"; u "rm\s+-rf\s+\$HOME" ]
           (u "rm\s+-rf\s+\.\.")
           [ u "rm\s+-rf\s+\*"; u "rm\s+-rf\s+\.";
             u "rm\s+-r\s+-f\s+/"; u "rm\s+--recursive.*/" ]
           (u "rm -rf ..")); [reflexivity | exact H | reflexivity].
Defined.

(** *** Faults *)

Section Faults.

Variable g : globals.

(** The three places where the guarded part of [main] can raise on a
    decoded request. *)
Lemma raises_not_dict (v : value) :
  (forall items, v <> VDict items) ->
  raises g (inr v) (AttributeError (type_name v) (u "get")).
Proof.
  intros H. destruct v; try reflexivity. exfalso. apply (H items). reflexivity.
Qed.

Lemma raises_tool_input_not_dict (items : list (str * value))
      (tool_input : value) :
  get (VDict items) (u "tool_name") (VStr []) = inr (VStr (u "Bash")) ->
  get (VDict items) (u "tool_input") (VDict []) = inr tool_input ->
  (forall items', tool_input <> VDict items') ->
  raises g (inr (VDict items))
         (AttributeError (type_name tool_input) (u "get")).
Proof.
  intros Hn Hi H. unfold raises, try_body. cbn [bind]. rewrite Hn, Hi.
  cbn [bind ne_str]. change (str_eqb (u "Bash") (u "Bash")) with true.
  cbn [negb]. destruct tool_input; try reflexivity.
  exfalso. apply (H items0). reflexivity.
Qed.

Lemma raises_command_not_str (items items' : list (str * value))
      (command : value) :
  patterns g = DANGEROUS_RM_PATTERNS ->
  get (VDict items) (u "tool_name") (VStr []) = inr (VStr (u "Bash")) ->
  get (VDict items) (u "tool_input") (VDict []) = inr (VDict items') ->
  get (VDict items') (u "command") (VStr []) = inr command ->
  (forall s, command <> VStr s) ->
  raises g (inr (VDict items)) (TypeError (type_name command)).
Proof.
  intros Hg Hn Hi Hc H. unfold raises, try_body. cbn [bind].
  rewrite Hn, Hi. cbn [bind ne_str].
  change (str_eqb (u "Bash") (u "Bash")) with true. cbn [negb].
  rewrite Hc. cbn [bind]. unfold check_dangerous_command. rewrite Hg.
  rewrite check_patterns_not_str by assumption. reflexivity.
Qed.

(** A request with a dict [tool_input] and a string command raises
    nothing. *)
Lemma no_fault_on_string_command (items items' : list (str * value))
      (command : str) (e : exn) :
  patterns g = DANGEROUS_RM_PATTERNS ->
  get (VDict items) (u "tool_input") (VDict []) = inr (VDict items') ->
  get (VDict items') (u "command") (VStr []) = inr (VStr command) ->
  ~ raises g (inr (VDict items)) e.
Proof.
  intros Hg Hi Hc. unfold raises, try_body. cbn [bind].
  change (get (VDict items) (u "tool_name") (VStr []))
    with (@inr exn value
            match lookup (u "tool_name") items with
            | Some v => v
            | None => VStr []
            end).
  cbn [bind]. rewrite Hi. cbn [bind].
  destruct (ne_str _ (u "Bash")); [discriminate|].
  rewrite Hc. cbn [bind]. unfold check_dangerous_command. rewrite Hg.
  destruct (check_patterns_inv command table_compiles)
    as [E|(q & _ & _ & E)]; rewrite E; discriminate.
Qed.

End Faults.

(** C5: whenever the guarded part of [main] raises, be it while decoding
    standard input or on the decoded request, the hook prints an approval
    carrying the warning ["Hook error: "] followed by the description of the
    exception; a fault never blocks, and [main] returns. *)
Theorem fault_fails_open (g : globals) (loaded : M value) (e : exn) :
  raises g loaded e ->
  snd (main g loaded)
  = (Stderr, Approved (Some (u "Hook error: " ++ str_of_exn e)))
  /\ forall reason, snd (snd (main g loaded)) <> Blocked reason.
Proof.
  unfold raises, main. intros ->. split; [reflexivity | discriminate].
Qed.

Lemma fault_fails_open_witness :
  let e := LoadError (u "Expecting value: line 1 column 1 (char 0)") in
  raises module_globals (inl e) e
  /\ snd (main module_globals (inl e))
     = (Stderr,
        Approved
          (Some (u "Hook error: Expecting value: line 1 column 1 (char 0)")))
  /\ forall reason, snd (snd (main module_globals (inl e))) <> Blocked reason.
Proof.
  split; [reflexivity|].
  apply (@fault_fails_open module_globals
           (inl (LoadError (u "Expecting value: line 1 column 1 (char 0)")))
           (LoadError (u "Expecting value: line 1 column 1 (char 0)"))).
  reflexivity.
Defined.

(** C6: matching ignores letter case: two shell commands that differ in the
    case of their ASCII letters only get the same decision; [RM -RF /] is
    decided as [rm -rf /] is. *)
Theorem letter_case_irrelevant (a b : str) :
  lower a = lower b ->
  evaluate (bash_request a) = evaluate (bash_request b).
Proof.
  intros E. rewrite !evaluate_bash.
  rewrite (@check_patterns_ext DANGEROUS_RM_PATTERNS a b); [reflexivity|].
  intros p. apply fires_same_letters, E.
Qed.

Lemma letter_case_irrelevant_witness :
  lower (u "RM -RF /") = lower (u "rm -rf /")
  /\ evaluate (bash_request (u "RM -RF /"))
     = evaluate (bash_request (u "rm -rf /")).
Proof.
  split; [reflexivity|].
  apply (@letter_case_irrelevant (u "RM -RF /") (u "rm -rf /")). reflexivity.
Defined.

(** C9: the shell command [rm -fr /] is approved with no warning: no rule of
    the table fires on the flag order [-fr]. *)
Theorem rm_fr_root_approved :
  evaluate (bash_request (u "rm -fr /")) = (Stdout, Approved None)
  /\ Forall (fun p => fires p (u "rm -fr /") = false) DANGEROUS_RM_PATTERNS.
Proof. split; [reflexivity | repeat constructor]. Qed.

(** *** The shape of the commands two of the rules fire on *)

Section Shapes.

Import Re.

Lemma compile_root_rule :
  compile root_rule
  = Some (literal (u "rm") ++ [(Space, OneOrMore)] ++ literal (u "-rf")
          ++ [(Space, OneOrMore)] ++ literal (u "/")).
Proof. reflexivity. Qed.

Lemma compile_long_form_rule :
  compile long_form_rule
  = Some (literal (u "rm") ++ [(Space, OneOrMore)]
          ++ literal (u "--recursive") ++ [(Any, ZeroOrMore)]
          ++ literal (u "/")).
Proof. reflexivity. Qed.

Lemma fires_root_rule_iff (command : str) :
  fires root_rule command = true <->
  exists pre rm ws1 rf ws2 post,
    command = pre ++ rm ++ ws1 ++ rf ++ ws2 ++ u "/" ++ post
    /\ ic_word (u "rm") rm /\ whitespace ws1
    /\ ic_word (u "-rf") rf /\ whitespace ws2.
Proof.
  unfold fires. rewrite compile_root_rule, search_iff. split.
  - intros (pre & w & post & -> & H).
    apply Lang_app in H as (rm & w1 & -> & Hrm & H).
    apply Lang_app in H as (ws1 & w2 & -> & Hws1 & H).
    apply Lang_app in H as (rf & w3 & -> & Hrf & H).
    apply Lang_app in H as (ws2 & sl & -> & Hws2 & Hsl).
    apply Lang_literal in Hrm, Hrf, Hsl. apply Lang_spaces in Hws1, Hws2.
    apply ic_word_slash in Hsl. subst sl.
    exists pre, rm, ws1, rf, ws2, post. rewrite <- !app_assoc. auto.
  - intros (pre & rm & ws1 & rf & ws2 & post & -> & Hrm & Hws1 & Hrf & Hws2).
    exists pre, (rm ++ ws1 ++ rf ++ ws2 ++ u "/"), post. split.
    + rewrite <- !app_assoc. reflexivity.
    + apply Lang_app. exists rm, (ws1 ++ rf ++ ws2 ++ u "/").
      split; [reflexivity|]. split; [apply Lang_literal, Hrm|].
      apply Lang_app. exists ws1, (rf ++ ws2 ++ u "/").
      split; [reflexivity|]. split; [apply Lang_spaces, Hws1|].
      apply Lang_app. exists rf, (ws2 ++ u "/").
      split; [reflexivity|]. split; [apply Lang_literal, Hrf|].
      apply Lang_app. exists ws2, (u "/").
      split; [reflexivity|]. split; [apply Lang_spaces, Hws2|].
      apply Lang_literal, ic_word_slash. reflexivity.
Qed.

Lemma fires_long_form_rule_iff (command : str) :
  fires long_form_rule command = true <->
  exists pre rm ws rec mid post,
    command = pre ++ rm ++ ws ++ rec ++ mid ++ u "/" ++ post
    /\ ic_word (u "rm") rm /\ whitespace ws
    /\ ic_word (u "--recursive") rec
    /\ Forall (fun c => c <> 10%N) mid.
Proof.
  unfold fires. rewrite compile_long_form_rule, search_iff. split.
  - intros (pre & w & post & -> & H).
    apply Lang_app in H as (rm & w1 & -> & Hrm & H).
    apply Lang_app in H as (ws & w2 & -> & Hws & H).
    apply Lang_app in H as (rec & w3 & -> & Hrec & H).
    apply Lang_app in H as (mid & sl & -> & Hmid & Hsl).
    apply Lang_literal in Hrm, Hrec, Hsl. apply Lang_spaces in Hws.
    apply Lang_any in Hmid. apply ic_word_slash in Hsl. subst sl.
    exists pre, rm, ws, rec, mid, post. rewrite <- !app_assoc. auto.
  - intros (pre & rm & ws & rec & mid & post & -> & Hrm & Hws & Hrec & Hmid).
    exists pre, (rm ++ ws ++ rec ++ mid ++ u "/"), post. split.
    + rewrite <- !app_assoc. reflexivity.
    + apply Lang_app. exists rm, (ws ++ rec ++ mid ++ u "/").
      split; [reflexivity|]. split; [apply Lang_literal, Hrm|].
      apply Lang_app. exists ws, (rec ++ mid ++ u "/").
      split; [reflexivity|]. split; [apply Lang_spaces, Hws|].
      apply Lang_app. exists rec, (mid ++ u "/").
      split; [reflexivity|]. split; [apply Lang_literal, Hrec|].
      apply Lang_app. exists mid, (u "/").
      split; [reflexivity|]. split; [apply Lang_any, Hmid|].
      apply Lang_literal, ic_word_slash. reflexivity.
Qed.

Lemma ic_word_refl_lower (word : str) :
  Forall (fun l => lit_ignorecase l l = true) word -> ic_word word word.
Proof. induction 1; constructor; assumption. Qed.

End Shapes.

(** C7, as stated, fails: in [rm --recursive /tmp/foo] the target of the
    long-form delete does not end in [/], and the command is blocked with
    the reason of the long-form rule. *)
Lemma long_form_rule_blocks_target_without_final_slash :
  let target := u "/tmp/foo" in
  last target 0%N <> ord "/"
  /\ evaluate (bash_request (u "rm --recursive " ++ target))
     = (Stdout, Blocked (reason_of long_form_rule)).
Proof. split; [vm_compute; discriminate | reflexivity]. Qed.

(** C7, amended: the long-form rule fires exactly on the shell commands in
    which [rm], a run of whitespace and [--recursive] (letters in any case)
    are followed, with no line feed in between, by a [/] anywhere later in
    the command.  Such a command is blocked, with the reason of this rule
    when no earlier rule fires; a command on which the rule does not fire is
    never blocked with its reason. *)
Theorem long_form_rule_fires_exactly (command : str) :
  (fires long_form_rule command = true <->
   exists pre rm ws rec mid post,
     command = pre ++ rm ++ ws ++ rec ++ mid ++ u "/" ++ post
     /\ ic_word (u "rm") rm /\ whitespace ws
     /\ ic_word (u "--recursive") rec
     /\ Forall (fun c => c <> 10%N) mid)
  /\ (fires long_form_rule command = true ->
      exists q, In q DANGEROUS_RM_PATTERNS
                /\ evaluate (bash_request command)
                   = (Stdout, Blocked (reason_of q)))
  /\ (fires long_form_rule command = true ->
      (forall q, In q (removelast DANGEROUS_RM_PATTERNS) ->
                 fires q command = false) ->
      evaluate (bash_request command)
      = (Stdout, Blocked (reason_of long_form_rule)))
  /\ (fires long_form_rule command = false ->
      evaluate (bash_request command)
      <> (Stdout, Blocked (reason_of long_form_rule))).
Proof.
  split; [apply fires_long_form_rule_iff|]. split; [|split].
  - intros F.
    destruct (@evaluate_blocked_some long_form_rule command) as (q & Hq & _ & E);
      [simpl; tauto | exact F |].
    exists q. auto.
  - intros F Hb.
    apply (@evaluate_blocked (removelast DANGEROUS_RM_PATTERNS)
             long_form_rule []); [reflexivity | exact Hb | exact F].
  - intros F E.
    destruct (evaluate_bash_inv command) as [A|(q & _ & Fq & B)];
      rewrite E in *; [discriminate|].
    assert (Q : reason_of long_form_rule = reason_of q) by congruence.
    apply app_inv_head in Q. subst q. congruence.
Qed.

Lemma long_form_rule_fires_exactly_witness :
  fires long_form_rule (u "rm --recursive /tmp/foo") = true
  /\ (forall q, In q (removelast DANGEROUS_RM_PATTERNS) ->
                fires q (u "rm --recursive /tmp/foo") = false)
  /\ evaluate (bash_request (u "rm --recursive /tmp/foo"))
     = (Stdout, Blocked (reason_of long_form_rule)).
Proof.
  assert (H : forall q, In q (removelast DANGEROUS_RM_PATTERNS) ->
                        fires q (u "rm --recursive /tmp/foo") = false).
  { intros q [<-|[<-|[<-|[<-|[<-|[<-|[<-|[]]]]]]]]; reflexivity. }
  split; [reflexivity|]. split; [exact H|].
  destruct (long_form_rule_fires_exactly (u "rm --recursive /tmp/foo"))
    as (_ & _ & B & _).
  apply B; [reflexivity | exact H].
Defined.

(** C10: the whitespace between [rm], [-rf] and [/] may be any non-empty
    runs of whitespace characters, tabs and line feeds included: the command
    is blocked by the first rule, as the form with single spaces is. *)
Theorem any_whitespace_between_tokens (pre ws1 ws2 post : str) :
  whitespace ws1 -> whitespace ws2 ->
  evaluate (bash_request (pre ++ u "rm" ++ ws1 ++ u "-rf" ++ ws2 ++ u "/" ++ post))
  = (Stdout, Blocked (reason_of root_rule))
  /\ evaluate (bash_request (pre ++ u "rm" ++ ws1 ++ u "-rf" ++ ws2 ++ u "/" ++ post))
     = evaluate (bash_request (u "rm -rf /")).
Proof.
  intros H1 H2.
  assert (E : evaluate (bash_request
                (pre ++ u "rm" ++ ws1 ++ u "-rf" ++ ws2 ++ u "/" ++ post))
              = (Stdout, Blocked (reason_of root_rule))).
  { apply (@evaluate_blocked [] root_rule (tl DANGEROUS_RM_PATTERNS));
      [reflexivity | intros q [] |].
    apply fires_root_rule_iff.
    exists pre, (u "rm"), ws1, (u "-rf"), ws2, post.
    repeat split; try apply H1; try apply H2;
      apply ic_word_refl_lower; repeat constructor. }
  split; [exact E | rewrite E; reflexivity].
Qed.

Lemma any_whitespace_between_tokens_witness :
  let tab := [9%N] in
  let newlines := [10%N; 13%N; 10%N] in
  whitespace tab /\ whitespace newlines
  /\ evaluate (bash_request
       (u "cd /; " ++ u "rm" ++ tab ++ u "-rf" ++ newlines ++ u "/" ++ u "etc"))
     = evaluate (bash_request (u "rm -rf /")).
Proof.
  assert (T : whitespace [9%N]) by (split; [discriminate | repeat constructor]).
  assert (L : whitespace [10%N; 13%N; 10%N])
    by (split; [discriminate | repeat constructor]).
  split; [exact T|]. split; [exact L|].
  apply (@any_whitespace_between_tokens (u "cd /; ") [9%N] [10%N; 13%N; 10%N]
           (u "etc") T L).
Defined.

(** ** The hook on sample requests *)

Example benign_listing_approved :
  evaluate (bash_request (u "ls -la /home")) = (Stdout, Approved None).
Proof. reflexivity. Qed.

Example plain_rm_approved :
  evaluate (bash_request (u "rm file.txt")) = (Stdout, Approved None).
Proof. reflexivity. Qed.

Example dot_prefixed_path_blocked :
  evaluate (bash_request (u "rm -rf ./build"))
  = (Stdout, Blocked (u "Blocked dangerous rm command matching: rm\s+-rf\s+\.")).
Proof. reflexivity. Qed.

Example upper_case_root_blocked :
  evaluate (bash_request (u "RM -RF /"))
  = (Stdout, Blocked (u "Blocked dangerous rm command matching: rm\s+-rf\s+/")).
Proof. reflexivity. Qed.

Example missing_command_approved :
  evaluate (VDict [ (u "tool_name", VStr (u "Bash")) ]) = (Stdout, Approved None).
Proof. reflexivity. Qed.

Example top_level_list_fails_open :
  evaluate (VList [])
  = (Stderr,
     Approved (Some (u "Hook error: 'list' object has no attribute 'get'"))).
Proof. reflexivity. Qed.

Example numeric_command_fails_open :
  evaluate (VDict [ (u "tool_name", VStr (u "Bash"));
                    (u "tool_input", VDict [ (u "command", VInt 5) ]) ])
  = (Stderr,
     Approved
       (Some (u "Hook error: expected string or bytes-like object, got 'int'"))).
Proof. reflexivity. Qed.

Example null_tool_input_fails_open :
  evaluate (VDict [ (u "tool_name", VStr (u "Bash")); (u "tool_input", VNone) ])
  = (Stderr,
     Approved (Some (u "Hook error: 'NoneType' object has no attribute 'get'"))).
Proof. reflexivity. Qed.

(** ** Further properties of the hook *)

Section Requests.

(** [main] on a decoded dict, case by case. *)
Lemma evaluate_dict (items : list (str * value)) :
  evaluate (VDict items) =
  if ne_str (field items (u "tool_name") (VStr [])) (u "Bash")
  then (Stdout, Approved None)
  else
    match field items (u "tool_input") (VDict []) with
    | VDict items' =>
        match field items' (u "command") (VStr []) with
        | VStr command => evaluate (bash_request command)
        | v =>
            (Stderr,
             Approved (Some (u "Hook error: "
                             ++ str_of_exn (TypeError (type_name v)))))
        end
    | v =>
        (Stderr,
         Approved (Some (u "Hook error: "
                         ++ str_of_exn (AttributeError (type_name v) (u "get")))))
    end.
Proof.
  unfold evaluate at 1. unfold main, try_body. cbn [bind get ret].
  fold (field items (u "tool_name") (VStr [])).
  fold (field items (u "tool_input") (VDict [])).
  destruct (ne_str (field items (u "tool_name") (VStr [])) (u "Bash"));
    [reflexivity|].
  destruct (field items (u "tool_input") (VDict [])) as [| | | | | |items'];
    try reflexivity.
  cbn [bind get ret]. fold (field items' (u "command") (VStr [])).
  destruct (field items' (u "command") (VStr [])); reflexivity.
Qed.

Lemma ne_str_false_iff (v : value) (s : str) :
  ne_str v s = false <-> v = VStr s.
Proof.
  destruct v; simpl; try (split; discriminate).
  rewrite negb_false_iff, str_eqb_eq. split; congruence.
Qed.

Lemma evaluate_bash_stream (command : str) :
  fst (evaluate (bash_request command)) = Stdout.
Proof.
  destruct (evaluate_bash_inv command) as [E|(q & _ & _ & E)];
    rewrite E; reflexivity.
Qed.

End Requests.

(** X1: the hook blocks nothing but a shell request: a blocked request is a
    dict for the tool ["Bash"] whose [tool_input] is a dict with a string
    [command] on which a rule of the table fires, the reason is that rule's,
    and the decision goes to standard output. *)
Theorem blocked_only_when_rule_fires (request : value) (s : stream)
        (reason : str) :
  evaluate request = (s, Blocked reason) ->
  s = Stdout
  /\ exists items items' command q,
       request = VDict items
       /\ field items (u "tool_name") (VStr []) = VStr (u "Bash")
       /\ field items (u "tool_input") (VDict []) = VDict items'
       /\ field items' (u "command") (VStr []) = VStr command
       /\ In q DANGEROUS_RM_PATTERNS /\ fires q command = true
       /\ reason = reason_of q.
Proof.
  destruct request as [| | | | | |items]; try (intros H; discriminate H).
  rewrite evaluate_dict.
  destruct (ne_str _ (u "Bash")) eqn:N; [discriminate|].
  apply ne_str_false_iff in N.
  destruct (field items (u "tool_input") (VDict [])) as [| | | | | |items']
    eqn:I; try discriminate.
  destruct (field items' (u "command") (VStr [])) as [| | | |command| |]
    eqn:C; try discriminate.
  intros H.
  destruct (evaluate_bash_inv command) as [A|(q & Hq & Fq & B)];
    rewrite H in *; [discriminate|].
  injection B as -> B. split; [reflexivity|].
  exists items, items', command, q.
  repeat split; assumption.
Qed.

Lemma blocked_only_when_rule_fires_witness :
  evaluate (bash_request (u "rm -rf ~/x"))
  = (Stdout, Blocked (reason_of (u "rm\s+-rf\s+~")))
  /\ Stdout = Stdout
  /\ exists items items' command q,
       bash_request (u "rm -rf ~/x") = VDict items
       /\ field items (u "tool_name") (VStr []) = VStr (u "Bash")
       /\ field items (u "tool_input") (VDict []) = VDict items'
       /\ field items' (u "command") (VStr []) = VStr command
       /\ In q DANGEROUS_RM_PATTERNS /\ fires q command = true
       /\ reason_of (u "rm\s+-rf\s+~") = reason_of q.
Proof.
  split; [reflexivity|].
  apply (@blocked_only_when_rule_fires (bash_request (u "rm -rf ~/x")) Stdout
           (reason_of (u "rm\s+-rf\s+~"))).
  reflexivity.
Defined.

(** X2: the hook answers on standard error exactly for the malformed
    requests: a value that is not a dict, or a dict for ["Bash"] whose
    [tool_input] is not a dict or whose [command] is not a string.  There
    the answer is an approval with a ["Hook error: "] warning; every other
    request is answered on standard output with no warning. *)
Theorem stderr_iff_malformed (request : value) :
  (fst (evaluate request) = Stderr <-> malformed_request request = true)
  /\ (malformed_request request = true ->
      exists e, evaluate request
                = (Stderr, Approved (Some (u "Hook error: " ++ str_of_exn e))))
  /\ (malformed_request request = false ->
      exists d, evaluate request = (Stdout, d)
                /\ forall w, d <> Approved (Some w)).
Proof.
  assert (T : malformed_request request = true ->
              exists e, evaluate request
                        = (Stderr,
                           Approved (Some (u "Hook error: " ++ str_of_exn e)))).
  { destruct request as [| | | | | |items];
      try (intros _; eexists; reflexivity).
    unfold malformed_request. rewrite evaluate_dict.
    destruct (ne_str _ (u "Bash")); [discriminate|]. cbn [negb andb].
    destruct (field items (u "tool_input") (VDict [])) as [| | | | | |items'];
      try (intros _; eexists; reflexivity).
    destruct (field items' (u "command") (VStr []));
      try (intros _; eexists; reflexivity).
    discriminate. }
  assert (F : malformed_request request = false ->
              exists d, evaluate request = (Stdout, d)
                        /\ forall w, d <> Approved (Some w)).
  { destruct request as [| | | | | |items]; try discriminate.
    unfold malformed_request. rewrite evaluate_dict.
    destruct (ne_str _ (u "Bash")).
    - intros _. exists (Approved None). split; [reflexivity | discriminate].
    - cbn [negb andb].
      destruct (field items (u "tool_input") (VDict [])) as [| | | | | |items'];
        try discriminate.
      destruct (field items' (u "command") (VStr [])) as [| | | |command| |];
        try discriminate.
      intros _.
      destruct (evaluate_bash_inv command) as [E|(q & _ & _ & E)]; rewrite E;
        eexists; (split; [reflexivity | discriminate]). }
  split; [|split; assumption]. split.
  - intros H. destruct (malformed_request request); [reflexivity|].
    destruct (F eq_refl) as (d & E & _). rewrite E in H. discriminate.
  - intros H. destruct (T H) as (e & E). rewrite E. reflexivity.
Qed.

(** X4: a request for ["Bash"] that carries no [tool_input], or a dict
    [tool_input] with no [command], is approved with no warning: the command
    defaults to the empty string, on which no rule fires. *)
Theorem bash_request_without_command_approved (items : list (str * value)) :
  field items (u "tool_name") (VStr []) = VStr (u "Bash") ->
  lookup (u "tool_input") items = None
  \/ (exists items', lookup (u "tool_input") items = Some (VDict items')
                     /\ lookup (u "command") items' = None) ->
  evaluate (VDict items) = (Stdout, Approved None).
Proof.
  intros N H. rewrite evaluate_dict, N.
  change (ne_str (VStr (u "Bash")) (u "Bash")) with false. cbn iota.
  unfold field at 1.
  destruct H as [->|(items' & -> & C)].
  - reflexivity.
  - unfold field. rewrite C. reflexivity.
Qed.

Lemma bash_request_without_command_approved_witness :
  let items := [ (u "tool_name", VStr (u "Bash"));
                 (u "tool_input", VDict [ (u "description", VStr (u "rm -rf /")) ]) ] in
  field items (u "tool_name") (VStr []) = VStr (u "Bash")
  /\ (lookup (u "tool_input") items = None
      \/ exists items', lookup (u "tool_input") items = Some (VDict items')
                        /\ lookup (u "command") items' = None)
  /\ evaluate (VDict items) = (Stdout, Approved None).
Proof.
  assert (H : exists items',
             lookup (u "tool_input")
               [ (u "tool_name", VStr (u "Bash"));
                 (u "tool_input",
                  VDict [ (u "description", VStr (u "rm -rf /")) ]) ]
             = Some (VDict items')
             /\ lookup (u "command") items' = None).
  { exists [ (u "description", VStr (u "rm -rf /")) ]. split; reflexivity. }
  split; [reflexivity|]. split; [right; exact H|].
  apply (@bash_request_without_command_approved
           [ (u "tool_name", VStr (u "Bash"));
             (u "tool_input", VDict [ (u "description", VStr (u "rm -rf /")) ]) ]);
    [reflexivity | right; exact H].
Defined.

Section Loop.

Lemma check_patterns_true_iff (ps : list str) (command reason : str) :
  Forall (fun q => Re.compile q <> None) ps ->
  (check_patterns ps (VStr command) = inr (true, reason) <->
   exists before q after,
     ps = before ++ q :: after
     /\ (forall p, In p before -> fires p command = false)
     /\ fires q command = true /\ reason = reason_of q).
Proof.
  intros Hc. split.
  - induction ps as [|a ps IH]; simpl; [discriminate|].
    inversion Hc; subst. rewrite re_search_str by assumption. unfold bind.
    destruct (fires a command) eqn:Fa.
    + intros E. injection E as <-. exists [], a, ps. repeat split; auto.
      intros p [].
    + intros E. destruct (IH H2 E) as (before & q & after & -> & Hb & Fq & R).
      exists (a :: before), q, after. repeat split; auto.
      intros p [<-|Hp]; auto.
  - intros (before & q & after & -> & Hb & Fq & ->).
    apply check_patterns_first; assumption.
Qed.

Lemma check_patterns_false_iff (ps : list str) (command reason : str) :
  Forall (fun q => Re.compile q <> None) ps ->
  (check_patterns ps (VStr command) = inr (false, reason) <->
   reason = [] /\ Forall (fun p => fires p command = false) ps).
Proof.
  intros Hc. split.
  - induction ps as [|a ps IH]; simpl.
    + intros E. injection E as <-. auto.
    + inversion Hc; subst. rewrite re_search_str by assumption. unfold bind.
      destruct (fires a command) eqn:Fa; [discriminate|].
      intros E. destruct (IH H2 E) as [R Hf]. auto.
  - intros [-> Hf]. apply check_patterns_none; assumption.
Qed.

End Loop.

(** X3: on a string, [check_dangerous_command] never raises; it returns
    [(False, "")] exactly when no rule of the table fires, and otherwise
    [True] with the reason of the first rule, in table order, that fires. *)
Theorem check_dangerous_command_spec (command : str) :
  (exists is_dangerous reason,
     check_dangerous_command module_globals (VStr command)
     = inr (is_dangerous, reason))
  /\ (forall reason,
        check_dangerous_command module_globals (VStr command)
        = inr (false, reason) <->
        reason = []
        /\ Forall (fun p => fires p command = false) DANGEROUS_RM_PATTERNS)
  /\ (forall reason,
        check_dangerous_command module_globals (VStr command)
        = inr (true, reason) <->
        exists before q after,
          DANGEROUS_RM_PATTERNS = before ++ q :: after
          /\ (forall p, In p before -> fires p command = false)
          /\ fires q command = true
          /\ reason = u "Blocked dangerous rm command matching: " ++ q).
Proof.
  unfold check_dangerous_command. cbn [patterns module_globals].
  split; [|split].
  - destruct (check_patterns_inv command table_compiles)
      as [E|(q & _ & _ & E)]; rewrite E; eauto.
  - intros reason. apply check_patterns_false_iff, table_compiles.
  - intros reason. apply check_patterns_true_iff, table_compiles.
Qed.

(** X7: text around a command cannot lift a block: when a shell command is
    blocked, every command that contains it is blocked too (possibly with
    the reason of an earlier rule). *)
Theorem blocked_command_stays_blocked_inside (command pre post : str)
        (s : stream) (reason : str) :
  evaluate (bash_request command) = (s, Blocked reason) ->
  exists q, In q DANGEROUS_RM_PATTERNS
            /\ evaluate (bash_request (pre ++ command ++ post))
               = (Stdout, Blocked (reason_of q)).
Proof.
  intros H.
  destruct (evaluate_bash_inv command) as [A|(p & Hp & Fp & _)];
    [rewrite H in A; discriminate|].
  destruct (@evaluate_blocked_some p (pre ++ command ++ post) Hp
              (fires_substring p command pre post Fp)) as (q & Hq & _ & E).
  exists q. auto.
Qed.

Lemma blocked_command_stays_blocked_inside_witness :
  evaluate (bash_request (u "rm -rf *")) = (Stdout, Blocked (reason_of (u "rm\s+-rf\s+\*")))
  /\ exists q, In q DANGEROUS_RM_PATTERNS
               /\ evaluate (bash_request
                    (u "cd /tmp && " ++ u "rm -rf *" ++ u " # rm -rf /"))
                  = (Stdout, Blocked (reason_of q)).
Proof.
  split; [reflexivity|].
  apply (@blocked_command_stays_blocked_inside (u "rm -rf *") (u "cd /tmp && ")
           (u " # rm -rf /") Stdout (reason_of (u "rm\s+-rf\s+\*"))).
  reflexivity.
Defined.

(** X9: the hook reports the first rule of the table exactly for the shell
    commands in which [rm], whitespace, [-rf] (letters in any case) and
    whitespace are followed at once by a [/]. *)
Theorem root_rule_reported_iff (command : str) :
  evaluate (bash_request command) = (Stdout, Blocked (reason_of root_rule))
  <-> exists pre rm ws1 rf ws2 post,
        command = pre ++ rm ++ ws1 ++ rf ++ ws2 ++ u "/" ++ post
        /\ ic_word (u "rm") rm /\ whitespace ws1
        /\ ic_word (u "-rf") rf /\ whitespace ws2.
Proof.
  rewrite <- fires_root_rule_iff. split.
  - intros E.
    destruct (evaluate_bash_inv command) as [A|(q & _ & Fq & B)];
      rewrite E in *; [discriminate|].
    assert (Q : reason_of root_rule = reason_of q) by congruence.
    apply app_inv_head in Q. subst q. exact Fq.
  - intros F.
    apply (@evaluate_blocked [] root_rule (tl DANGEROUS_RM_PATTERNS));
      [reflexivity | intros q [] | exact F].
Qed.

Section Anatomy.

Import Re.

(** A literal that is not a letter matches itself only, also when case is
    ignored. *)
Lemma lit_ignorecase_symbol (l c : char) :
  (l < 65 \/ 90 < l < 97 \/ 122 < l)%N ->
  lit_ignorecase l c = true -> c = l.
Proof.
  intros Hl. unfold lit_ignorecase.
  assert (L : ascii_lower l = l).
  { unfold ascii_lower.
    destruct (N.leb_spec 65 l), (N.leb_spec l 90); simpl; try reflexivity. lia. }
  rewrite L. change (ord "i") with 105%N. change (ord "s") with 115%N.
  change (ord "k") with 107%N.
  destruct (N.eqb_spec l 105); [lia|]. destruct (N.eqb_spec l 115); [lia|].
  destruct (N.eqb_spec l 107); [lia|]. simpl. rewrite !orb_false_r.
  intros H. apply N.eqb_eq in H. revert H. unfold ascii_lower.
  destruct (N.leb_spec 65 c), (N.leb_spec c 90); simpl; intros; lia.
Qed.

Lemma ic_word_symbol (l : char) (w : str) :
  (l < 65 \/ 90 < l < 97 \/ 122 < l)%N ->
  ic_word [l] w -> w = [l].
Proof.
  intros Hl H. inversion H as [|? c ? w' Hc Hw]; subst. inversion Hw; subst.
  f_equal. apply lit_ignorecase_symbol; assumption.
Qed.

Lemma target_char_symbol (l : char) :
  existsb (N.eqb l) target_chars = true ->
  In l target_chars /\ (l < 65 \/ 90 < l < 97 \/ 122 < l)%N.
Proof.
  intros H. apply existsb_exists in H as (x & Hx & E).
  apply N.eqb_eq in E. subst x. split; [exact Hx|].
  simpl in Hx. unfold ord in Hx. simpl in Hx. lia.
Qed.

(** A word of a pattern with a mandatory target literal holds a target
    character. *)
Lemma Lang_has_target (r : regex) :
  has_target r = true ->
  forall w, Lang IGNORECASE r w -> exists c, In c w /\ In c target_chars.
Proof.
  unfold has_target. induction r as [|[a q] r IH]; [discriminate|].
  cbn [existsb]. intros H w Hw. apply orb_true_iff in H.
  assert (Tail : forall v, Lang IGNORECASE r v ->
                 existsb (fun it : item =>
                            match it with
                            | (Lit l, Once) => existsb (N.eqb l) target_chars
                            | _ => false
                            end) r = true ->
                 forall x, exists c, In c (x ++ v) /\ In c target_chars).
  { intros v Hv Hr x. destruct (IH Hr v Hv) as (c & Hc & Tc).
    exists c. split; [apply in_or_app; right; exact Hc | exact Tc]. }
  destruct q; cbn [Lang] in Hw.
  - destruct Hw as (c & w' & -> & Hc & Hw'). destruct H as [H|H].
    + destruct a as [l| |]; try discriminate.
      apply target_char_symbol in H as [Tl Sl].
      apply (@lit_ignorecase_symbol l c Sl) in Hc. subst c.
      exists l. split; [left; reflexivity | exact Tl].
    + apply (Tail w' Hw' H [c]).
  - destruct Hw as (c & cs & w' & -> & Hc & Hall & Hw').
    destruct H as [H|H]; [destruct a; discriminate|].
    apply (Tail w' Hw' H (c :: cs)).
  - destruct Hw as (cs & w' & -> & Hall & Hw').
    destruct H as [H|H]; [destruct a; discriminate|].
    apply (Tail w' Hw' H cs).
Qed.

Lemma table_has_targets :
  Forall (fun p => exists r, compile p = Some r /\ has_target r = true)
         DANGEROUS_RM_PATTERNS.
Proof.
  unfold DANGEROUS_RM_PATTERNS.
  repeat (constructor; [eexists; split; reflexivity|]). constructor.
Qed.

Lemma table_starts_with_rm_dash :
  Forall (fun p => exists r,
            compile p
            = Some (literal (u "rm") ++ [(Space, OneOrMore)]
                    ++ literal (u "-") ++ r))
         DANGEROUS_RM_PATTERNS.
Proof.
  unfold DANGEROUS_RM_PATTERNS.
  repeat (constructor; [eexists; reflexivity|]). constructor.
Qed.

Lemma compile_parent_rule :
  compile parent_rule
  = Some ((literal (u "rm") ++ [(Space, OneOrMore)] ++ literal (u "-rf")
           ++ [(Space, OneOrMore)] ++ literal (u "."))
          ++ literal (u ".")).
Proof. reflexivity. Qed.

Lemma compile_dot_rule :
  compile dot_rule
  = Some (literal (u "rm") ++ [(Space, OneOrMore)] ++ literal (u "-rf")
          ++ [(Space, OneOrMore)] ++ literal (u ".")).
Proof. reflexivity. Qed.

Lemma compile_separated_flags_rule :
  compile separated_flags_rule
  = Some (literal (u "rm") ++ [(Space, OneOrMore)] ++ literal (u "-r")
          ++ [(Space, OneOrMore)] ++ literal (u "-f")
          ++ [(Space, OneOrMore)] ++ literal (u "/")).
Proof. reflexivity. Qed.

End Anatomy.

(** X5: every rule of the table starts with [rm\s+-]: a blocked shell
    command contains [rm] (in either case), a run of whitespace and a
    dash. *)
Theorem blocked_command_contains_rm_dash (command : str) (s : stream)
        (reason : str) :
  evaluate (bash_request command) = (s, Blocked reason) ->
  exists pre rm ws post,
    command = pre ++ rm ++ ws ++ u "-" ++ post
    /\ ic_word (u "rm") rm /\ whitespace ws.
Proof.
  intros H.
  destruct (evaluate_bash_inv command) as [A|(q & Hq & Fq & _)];
    [rewrite H in A; discriminate|].
  pose proof table_starts_with_rm_dash as T.
  rewrite Forall_forall in T. destruct (T q Hq) as (r & C).
  unfold fires in Fq. rewrite C in Fq.
  apply search_iff in Fq as (pre & w & post & -> & Hw).
  apply Lang_app in Hw as (rm & w1 & -> & Hrm & Hw).
  apply Lang_app in Hw as (ws & w2 & -> & Hws & Hw).
  apply Lang_app in Hw as (dash & w3 & -> & Hdash & _).
  apply Lang_literal in Hrm, Hdash. apply Lang_spaces in Hws.
  apply ic_word_symbol in Hdash; [|left; reflexivity]. subst dash.
  exists pre, rm, ws, (w3 ++ post). rewrite <- !app_assoc. auto.
Qed.

Lemma blocked_command_contains_rm_dash_witness :
  evaluate (bash_request (u "Rm  --Recursive x/"))
  = (Stdout, Blocked (reason_of long_form_rule))
  /\ exists pre rm ws post,
       u "Rm  --Recursive x/" = pre ++ rm ++ ws ++ u "-" ++ post
       /\ ic_word (u "rm") rm /\ whitespace ws.
Proof.
  split; [reflexivity|].
  apply (@blocked_command_contains_rm_dash (u "Rm  --Recursive x/") Stdout
           (reason_of long_form_rule)).
  reflexivity.
Defined.

(** X6: every rule needs one of the characters [/ ~ $ . *] in its match: a
    shell command that holds none of them is approved with no warning. *)
Theorem command_without_target_char_approved (command : str) :
  Forall (fun c => existsb (N.eqb c) target_chars = false) command ->
  evaluate (bash_request command) = (Stdout, Approved None).
Proof.
  intros Hall.
  destruct (evaluate_bash_inv command) as [A|(q & Hq & Fq & _)]; [exact A|].
  exfalso. pose proof table_has_targets as T.
  rewrite Forall_forall in T. destruct (T q Hq) as (r & C & Hr).
  unfold fires in Fq. rewrite C in Fq.
  apply search_iff in Fq as (pre & w & post & -> & Hw).
  destruct (Lang_has_target r Hr w Hw) as (c & Hc & Tc).
  rewrite Forall_forall in Hall.
  assert (E : existsb (N.eqb c) target_chars = false).
  { apply Hall. apply in_or_app. right. apply in_or_app. left. exact Hc. }
  assert (E' : existsb (N.eqb c) target_chars = true).
  { apply existsb_exists. exists c. split; [exact Tc | apply N.eqb_refl]. }
  congruence.
Qed.

Lemma command_without_target_char_approved_witness :
  Forall (fun c => existsb (N.eqb c) target_chars = false)
         (u "sudo rm -rf build && rm -r -f dist")
  /\ evaluate (bash_request (u "sudo rm -rf build && rm -r -f dist"))
     = (Stdout, Approved None).
Proof.
  assert (H : Forall (fun c => existsb (N.eqb c) target_chars = false)
                     (u "sudo rm -rf build && rm -r -f dist"))
    by (repeat constructor).
  split; [exact H|].
  apply (@command_without_target_char_approved
           (u "sudo rm -rf build && rm -r -f dist") H).
Defined.

(** X8: the rule for the parent directory is covered by the rule for the
    current directory: on every command on which [rm\s+-rf\s+\.\.] fires,
    [rm\s+-rf\s+\.] fires too, so the former decides the reported reason
    only. *)
Theorem parent_rule_implies_dot_rule (command : str) :
  fires parent_rule command = true -> fires dot_rule command = true.
Proof.
  unfold fires. rewrite compile_parent_rule, compile_dot_rule, !search_iff.
  intros (pre & w & post & -> & Hw).
  apply Lang_app in Hw as (w1 & w2 & -> & H1 & H2).
  exists pre, w1, (w2 ++ post). split; [|exact H1].
  rewrite <- !app_assoc. reflexivity.
Qed.

Lemma parent_rule_implies_dot_rule_witness :
  fires parent_rule (u "rm -rf ../x") = true
  /\ fires dot_rule (u "rm -rf ../x") = true.
Proof.
  split; [reflexivity|].
  apply (@parent_rule_implies_dot_rule (u "rm -rf ../x")). reflexivity.
Defined.

(** X10: the rule for separated flags fires exactly on the commands in
    which [rm], whitespace, [-r], whitespace, [-f] (letters in any case) and
    whitespace are followed at once by a [/]; such a command is blocked. *)
Theorem separated_flags_rule_fires_exactly (command : str) :
  (fires separated_flags_rule command = true <->
   exists pre rm ws1 r ws2 f ws3 post,
     command = pre ++ rm ++ ws1 ++ r ++ ws2 ++ f ++ ws3 ++ u "/" ++ post
     /\ ic_word (u "rm") rm /\ whitespace ws1
     /\ ic_word (u "-r") r /\ whitespace ws2
     /\ ic_word (u "-f") f /\ whitespace ws3)
  /\ (fires separated_flags_rule command = true ->
      exists q, In q DANGEROUS_RM_PATTERNS
                /\ evaluate (bash_request command)
                   = (Stdout, Blocked (reason_of q))).
Proof.
  split.
  - unfold fires. rewrite compile_separated_flags_rule, search_iff. split.
    + intros (pre & w & post & -> & H).
      apply Lang_app in H as (rm & w1 & -> & Hrm & H).
      apply Lang_app in H as (ws1 & w2 & -> & Hws1 & H).
      apply Lang_app in H as (r & w3 & -> & Hr & H).
      apply Lang_app in H as (ws2 & w4 & -> & Hws2 & H).
      apply Lang_app in H as (f & w5 & -> & Hf & H).
      apply Lang_app in H as (ws3 & sl & -> & Hws3 & Hsl).
      apply Lang_literal in Hrm, Hr, Hf, Hsl.
      apply Lang_spaces in Hws1, Hws2, Hws3.
      apply ic_word_slash in Hsl. subst sl.
      exists pre, rm, ws1, r, ws2, f, ws3, post.
      rewrite <- !app_assoc. repeat split; try assumption;
        try apply Hws1; try apply Hws2; apply Hws3.
    + intros (pre & rm & ws1 & r & ws2 & f & ws3 & post & -> & Hrm & Hws1
              & Hr & Hws2 & Hf & Hws3).
      exists pre, (rm ++ ws1 ++ r ++ ws2 ++ f ++ ws3 ++ u "/"), post. split.
      * rewrite <- !app_assoc. reflexivity.
      * apply Lang_app. exists rm, (ws1 ++ r ++ ws2 ++ f ++ ws3 ++ u "/").
        split; [reflexivity|]. split; [apply Lang_literal, Hrm|].
        apply Lang_app. exists ws1, (r ++ ws2 ++ f ++ ws3 ++ u "/").
        split; [reflexivity|]. split; [apply Lang_spaces, Hws1|].
        apply Lang_app. exists r, (ws2 ++ f ++ ws3 ++ u "/").
        split; [reflexivity|]. split; [apply Lang_literal, Hr|].
        apply Lang_app. exists ws2, (f ++ ws3 ++ u "/").
        split; [reflexivity|]. split; [apply Lang_spaces, Hws2|].
        apply Lang_app. exists f, (ws3 ++ u "/").
        split; [reflexivity|]. split; [apply Lang_literal, Hf|].
        apply Lang_app. exists ws3, (u "/").
        split; [reflexivity|]. split; [apply Lang_spaces, Hws3|].
        apply Lang_literal, ic_word_slash. reflexivity.
  - intros F.
    destruct (@evaluate_blocked_some separated_flags_rule command)
      as (q & Hq & _ & E); [simpl; tauto | exact F |].
    exists q. auto.
Qed.

(** X11: the answer depends on the request through [tool_name] and the
    [command] of [tool_input] only: two dicts that agree on [tool_name], and
    whose [tool_input]s are equal or are dicts that agree on [command], get
    the same answer, whatever else they hold. *)
Theorem other_keys_irrelevant (items1 items2 : list (str * value)) :
  field items1 (u "tool_name") (VStr []) = field items2 (u "tool_name") (VStr []) ->
  field items1 (u "tool_input") (VDict []) = field items2 (u "tool_input") (VDict [])
  \/ (exists d1 d2,
        field items1 (u "tool_input") (VDict []) = VDict d1
        /\ field items2 (u "tool_input") (VDict []) = VDict d2
        /\ field d1 (u "command") (VStr []) = field d2 (u "command") (VStr [])) ->
  evaluate (VDict items1) = evaluate (VDict items2).
Proof.
  intros N H. rewrite !evaluate_dict, N.
  destruct (ne_str _ (u "Bash")); [reflexivity|].
  destruct H as [->|(d1 & d2 & -> & -> & ->)]; reflexivity.
Qed.

Lemma other_keys_irrelevant_witness :
  let items1 := [ (u "session_id", VInt 1);
                  (u "tool_name", VStr (u "Bash"));
                  (u "tool_input", VDict [ (u "command", VStr (u "rm -rf ~"));
                                           (u "timeout", VInt 5) ]) ] in
  let items2 := [ (u "tool_input", VDict [ (u "description", VNone);
                                           (u "command", VStr (u "rm -rf ~")) ]);
                  (u "tool_name", VStr (u "Bash")) ] in
  field items1 (u "tool_name") (VStr []) = field items2 (u "tool_name") (VStr [])
  /\ evaluate (VDict items1) = evaluate (VDict items2).
Proof.
  split; [reflexivity|].
  apply (@other_keys_irrelevant
           [ (u "session_id", VInt 1);
             (u "tool_name", VStr (u "Bash"));
             (u "tool_input", VDict [ (u "command", VStr (u "rm -rf ~"));
                                      (u "timeout", VInt 5) ]) ]
           [ (u "tool_input", VDict [ (u "description", VNone);
                                      (u "command", VStr (u "rm -rf ~")) ]);
             (u "tool_name", VStr (u "Bash")) ]); [reflexivity|].
  right.
  exists [ (u "command", VStr (u "rm -rf ~")); (u "timeout", VInt 5) ],
         [ (u "description", VNone); (u "command", VStr (u "rm -rf ~")) ].
  repeat split.
Defined.

(** ** Calls that share the state of one process *)

Section Cache.









End Cache.



(** The consistency of the cache is what the property rests on: from a full
    cache whose oldest entry binds the first rule to another pattern, the
    first call misses the command, evicts that entry, and the second call
    blocks. *)
Example stale_cache_entry_changes_the_answer :
  let stale := ((root_rule, IGNORECASE),
                {| Stateful.p_regex := literal (u "never");
                   Stateful.p_flags := IGNORECASE |}) in
  let other := ((u "x", false),
                {| Stateful.p_regex := literal (u "x");
                   Stateful.p_flags := false |}) in
  let w := {| Stateful.table := DANGEROUS_RM_PATTERNS;
              Stateful.re_cache := stale :: repeat other 511 |} in
  let request := inr (bash_request (u "rm -rf /")) in
  fst (Stateful.main request w) = (Stdout, Approved None)
  /\ fst (Stateful.main request (snd (Stateful.main request w)))
     = (Stdout, Blocked (reason_of root_rule)).
Proof. vm_compute. split; reflexivity. Qed.
